(** * cligateway: an HTTP gateway to whitelisted command-line programs

    A shallow embedding of [cligateway.go] and the properties of its
    request-to-invocation pipeline.

    Conventions of the embedding.
    - A Go [string] is a byte sequence: Rocq's [string] (a list of [ascii]).
    - A Go [map[string]V] is a [gmap string V] under an [option]: [None] is
      the nil map, which can be read and ranged over but not written.
    - [range] over a map visits every entry once, in an order the runtime
      chooses anew each time; a function that ranges over a map takes the
      visiting order as an argument, constrained by [range_order].
    - A [[]string] whose nil-ness is observed (the environment handed to
      os/exec) is an [option (list string)]; argument vectors are lists.
    - The calls a handler makes on the gin context, the logger and the
      process are recorded, in program order, in a list of [event]s. *)

From stdpp Require Import base option list gmap strings.
From Stdlib Require Import Ascii NArith Lia.

Local Open Scope string_scope.
Local Open Scope list_scope.

(** ** The [strings] package, on bytes *)

Module strings.

Definition byte_in (lo hi : N) (c : ascii) : bool :=
  ((lo <=? N_of_ascii c) && (N_of_ascii c <=? hi))%N.

Definition byte_is (n : N) (c : ascii) : bool := (N_of_ascii c =? n)%N.

(** The six ASCII white space bytes of [strings.asciiSpace]:
    TAB, LF, VT, FF, CR and the space. *)
Definition asciiSpace (c : ascii) : bool :=
  byte_in 9 13 c || byte_is 32 c.

(** UTF-8 encodings of the other code points of [unicode.IsSpace]:
    U+0085 and U+00A0 (two bytes); U+1680, U+2000..U+200A, U+2028, U+2029,
    U+202F, U+205F and U+3000 (three bytes). *)
Definition space2 (c d : ascii) : bool :=
  byte_is 194 c && (byte_is 133 d || byte_is 160 d).

Definition space3 (c d e : ascii) : bool :=
  (byte_is 225 c && byte_is 154 d && byte_is 128 e)
  || (byte_is 226 c && byte_is 128 d
      && (byte_in 128 138 e || byte_is 168 e || byte_is 169 e || byte_is 175 e))
  || (byte_is 226 c && byte_is 129 d && byte_is 159 e)
  || (byte_is 227 c && byte_is 128 d && byte_is 128 e).

(** Strips white space runes from the front. [sp2] and [sp3] recognise the
    multi-byte runes in the order their bytes are met. *)
Fixpoint trimFront (sp2 : ascii → ascii → bool)
    (sp3 : ascii → ascii → ascii → bool) (s : string) : string :=
  match s with
  | EmptyString => EmptyString
  | String c r =>
      if asciiSpace c then trimFront sp2 sp3 r else
      match r with
      | String d r2 =>
          if sp2 c d then trimFront sp2 sp3 r2 else
          match r2 with
          | String e r3 => if sp3 c d e then trimFront sp2 sp3 r3 else s
          | EmptyString => s
          end
      | EmptyString => s
      end
  end.

Definition TrimLeftSpace (s : string) : string := trimFront space2 space3 s.

(** From the back the bytes of a rune are met last byte first. *)
Definition TrimRightSpace (s : string) : string :=
  String.rev
    (trimFront (λ d c, space2 c d) (λ e d c, space3 c d e) (String.rev s)).

(** [strings.TrimSpace]: all leading and trailing white space removed, as
    defined by Unicode. *)
Definition TrimSpace (s : string) : string := TrimRightSpace (TrimLeftSpace s).

(** [strings.HasPrefix]. *)
Definition HasPrefix (s prefix : string) : bool := String.prefix prefix s.

(** [strings.Split(s, sep)] for a one-byte separator, the only kind the
    program uses: the pieces between the separators, [""] pieces included;
    a string without separator is returned as the single piece. *)
Fixpoint Split (s : string) (sep : ascii) : list string :=
  match s with
  | EmptyString => [EmptyString]
  | String c r =>
      if Ascii.eqb c sep then EmptyString :: Split r sep
      else match Split r sep with
           | piece :: pieces => String c piece :: pieces
           | [] => [String c EmptyString]
           end
  end.

(** [strings.ToLower] and [strings.ToUpper] on the bytes A-Z and a-z; the
    other bytes are kept. This is what Go does on a string of ASCII bytes.
    On other strings Go also maps the letters outside ASCII, which may
    change the length, and replaces invalid bytes by U+FFFD; nothing below
    depends on the value of [ToUpper], and of [ToLower] only on whether the
    result is "text", which no rune outside ASCII brings about. *)
Definition lowerByte (c : ascii) : ascii :=
  if byte_in 65 90 c then ascii_of_N (N_of_ascii c + 32) else c.

Definition upperByte (c : ascii) : ascii :=
  if byte_in 97 122 c then ascii_of_N (N_of_ascii c - 32) else c.

Fixpoint mapBytes (f : ascii → ascii) (s : string) : string :=
  match s with
  | EmptyString => EmptyString
  | String c r => String (f c) (mapBytes f r)
  end.

Definition ToLower (s : string) : string := mapBytes lowerByte s.
Definition ToUpper (s : string) : string := mapBytes upperByte s.

End strings.

(** ** Go values the program relies on *)

(** What a Go computation that may panic yields. *)
Inductive result (A : Type) : Type :=
| Ok (a : A)
| Panics (msg : string).
Arguments Ok {A} a.
Arguments Panics {A} msg.

(** [m[k] = v]: a run-time panic on the nil map. *)
Definition mapassign {V : Type} (m : option (gmap string V)) (k : string) (v : V)
    : result (option (gmap string V)) :=
  match m with
  | None => Panics "assignment to entry in nil map"
  | Some g => Ok (Some (<[k:=v]> g))
  end.

(** The entries of [m] in an order [range] may visit them: any order, each
    entry once; none for the nil map. *)
Definition range_order {V : Type} (m : option (gmap string V))
    (ord : list (string * V)) : Prop :=
  ord ≡ₚ from_option map_to_list [] m.

(** [append(s, x)] on a slice that may be nil: the result never is. *)
Definition append1 (s : option (list string)) (x : string) : option (list string) :=
  Some (from_option id [] s ++ [x]).

(** ** net/http status codes *)

Definition StatusOK : nat := 200.
Definition StatusBadRequest : nat := 400.
Definition StatusForbidden : nat := 403.
Definition StatusInternalServerError : nat := 500.

(** ** os/exec *)

(** The fields of [exec.Cmd] the program sets. [Args] holds the program name
    followed by the arguments; [Env = None] is the nil environment. *)
Record Cmd : Type := {
  Path : string;
  Args : list string;
  Env : option (list string)
}.

(** [exec.CommandContext(c, name, arg...)]; the resolution of [name] through
    the host's PATH is left to the process oracle. *)
Definition CommandContext (name : string) (arg : list string) : Cmd :=
  {| Path := name; Args := name :: arg; Env := None |}.

(** What running a command gives back: the captured streams, their
    interleaving as [CombinedOutput] sees it, and the error if any. *)
Record procResult : Type := {
  stdout : string;
  stderr : string;
  combined : string;
  err : option string
}.


(** ** The program *)

Inductive runner : Type := RunText | RunJson.

(** The package-level variables: the parsed command-line flags, the
    whitelist and the selected runner. *)
Record config : Type := {
  addDashes : bool;
  envKeyToUpper : bool;
  responseType : string;
  serverAddr : string;
  verboseRun : bool;
  whitelist : list string;
  myRunner : runner
}.

Record request : Type := {
  command : string;
  flags : option (gmap string string);
  args : list string;
  envs : option (gmap string string)
}.

(** The lines the program logs, by call site. *)
Inductive logline : Type :=
| LogForbidden (command : string) (args : list string)
| LogRunning (command : string) (args : list string)
| LogSuccessText (cmd : Cmd) (output : string)
| LogSuccessJson (cmd : Cmd) (out errs : string)
| LogFailed (cmd : Cmd) (msg : string).

(** What a handler does, in program order: [c.JSON(status, gin.H{...})],
    [c.String(status, body)], [log.Printf], and the two calls that start the
    child process, [cmd.Run()] and [cmd.CombinedOutput()]. *)
Inductive event : Type :=
| JSON (status : nat) (body : list (string * string))
| Text (status : nat) (body : string)
| Printf (l : logline)
| CmdRun (cmd : Cmd)
| CmdCombinedOutput (cmd : Cmd).

(** How a handler ends: it returns, or it panics after some events. *)
Inductive outcome : Type :=
| Done (tr : list event)
| Panic (tr : list event) (msg : string).

(** The command started by an event, if the event starts one. *)
Definition spawned (e : event) : option Cmd :=
  match e with
  | CmdRun cmd | CmdCombinedOutput cmd => Some cmd
  | _ => None
  end.

Definition spawns (tr : list event) : list Cmd := omap spawned tr.

Definition respError (status : nat) (message : string) : list event :=
  [JSON status [("error", message)]].

Section Gateway.

Variable cfg : config.

(** The process oracle: the outcome of running a command on the host. *)
Variable exec : Cmd → procResult.

(** One turn of the loop of [flagStrings]. *)
Definition flagStrings_body (flags : list string) (kv : string * string)
    : list string :=
  let k := strings.TrimSpace kv.1 in
  let v := strings.TrimSpace kv.2 in
  let k := if addDashes cfg && negb (strings.HasPrefix k "-")
           then (if (String.length k =? 1)%nat then "-" +:+ k else "--" +:+ k)
           else k in
  let flags := flags ++ [k] in
  if String.eqb v "" then flags else flags ++ [v].

(** [req.flagStrings()], [ord] being the order in which [range req.flags]
    visits the entries. *)
Definition flagStrings (ord : list (string * string)) : list string :=
  fold_left flagStrings_body ord [].

Definition envStrings_body (envs : option (list string)) (kv : string * string)
    : option (list string) :=
  let k := strings.TrimSpace kv.1 in
  let v := strings.TrimSpace kv.2 in
  let k := if envKeyToUpper cfg then strings.ToUpper k else k in
  append1 envs (k +:+ "=" +:+ v).

(** [req.envStrings()], [ord] being the order in which [range req.envs]
    visits the entries. The result is nil when there is no entry. *)
Definition envStrings (ord : list (string * string)) : option (list string) :=
  fold_left envStrings_body ord None.

(** [req.fullArgs()] *)
Definition fullArgs (req : request) (ordFlags : list (string * string))
    : list string :=
  flagStrings ordFlags ++ args req.

Fixpoint inWhitelist_loop (command : string) (ws : list string) : bool :=
  match ws with
  | [] => false
  | w :: ws' => if String.eqb command w then true else inWhitelist_loop command ws'
  end.

Definition inWhitelist (command : string) : bool :=
  inWhitelist_loop command (whitelist cfg).

(** [checkCommand] has no result: it answers on the context and returns to
    its caller either way. *)
Definition checkCommand (command : string) (args : list string) : list event :=
  if negb (inWhitelist command) then
    (if verboseRun cfg then [Printf (LogForbidden command args)] else [])
    ++ respError StatusForbidden "command not allowed."
  else [].

Definition argsFilter_body (s : list string) (a : string) : list string :=
  if String.eqb a "" then s else s ++ [strings.TrimSpace a].

Definition argsFilter (args : list string) : list string :=
  fold_left argsFilter_body args [].

Definition runFailed (cmd : Cmd) (msg : string) : list event :=
  Printf (LogFailed cmd msg)
  :: respError StatusInternalServerError ("failed to run cmd: " +:+ msg).

Definition runText (cmd : Cmd) : list event :=
  CmdCombinedOutput cmd ::
  match err (exec cmd) with
  | Some msg => runFailed cmd msg
  | None =>
      (if verboseRun cfg
       then [Printf (LogSuccessText cmd (combined (exec cmd)))] else [])
      ++ [Text StatusOK (combined (exec cmd))]
  end.

Definition runJson (cmd : Cmd) : list event :=
  CmdRun cmd ::
  match err (exec cmd) with
  | Some msg => runFailed cmd msg
  | None =>
      (if verboseRun cfg
       then [Printf (LogSuccessJson cmd (stdout (exec cmd)) (stderr (exec cmd)))]
       else [])
      ++ [JSON StatusOK [("stdout", stdout (exec cmd)); ("stderr", stderr (exec cmd))]]
  end.

Definition callRunner (r : runner) (cmd : Cmd) : list event :=
  match r with
  | RunText => runText cmd
  | RunJson => runJson cmd
  end.

(** [run]: statement by statement. *)
Definition run (command : string) (args : list string) (env : option (list string))
    : list event :=
  let checked := checkCommand command args in
  let args := argsFilter args in
  let cmd := CommandContext command args in
  let logged := [Printf (LogRunning command args)] in
  let cmd := {| Path := Path cmd; Args := Args cmd; Env := env |} in
  checked ++ logged ++ callRunner (myRunner cfg) cmd.

(** The loop of [getHandler] over the query, [query] being the entries of
    [c.Request.URL.Query()] in the order [range] visits them. *)
Fixpoint getHandler_loop (flags : option (gmap string string))
    (query : list (string * list string)) : result (option (gmap string string)) :=
  match query with
  | [] => Ok flags
  | (k, v) :: query' =>
      if negb (String.eqb k "") && (0 <? List.length v)%nat then
        match mapassign flags k (hd "" v) with
        | Ok flags' => getHandler_loop flags' query'
        | Panics msg => Panics msg
        end
      else getHandler_loop flags query'
  end.

(** [getHandler]: [pCommand] and [pArgs] are [c.Param("command")] and
    [c.Param("args")]; [ordFlags] is the order in which [flagStrings] then
    ranges over the flags. *)
Definition getHandler (pCommand pArgs : string)
    (query : list (string * list string)) (ordFlags : list (string * string))
    : outcome :=
  let req := {| command := pCommand; flags := None;
                args := strings.Split pArgs "/"; envs := None |} in
  match getHandler_loop (flags req) query with
  | Panics msg => Panic [] msg
  | Ok flags' =>
      let req := {| command := command req; flags := flags';
                    args := args req; envs := envs req |} in
      Done (run (command req) (fullArgs req ordFlags) None)
  end.

(** [postHandler], after the call of [c.Bind]: [bindErr] and [req] are what
    [c.Bind(&req)] returned and left in [req] (see [Bind] and
    [postHandler_body] below for the call itself); [ordFlags] and [ordEnvs]
    are the orders in which the two maps are ranged over. The guard on
    [len(cmds)] answers without returning; [cmds[0]] is what would panic on
    an empty [cmds]. *)
Definition postHandler (bindErr : option string) (req : request)
    (ordFlags ordEnvs : list (string * string)) : outcome :=
  match bindErr with
  | Some msg => Done (respError StatusBadRequest msg)
  | None =>
      let cmds := strings.Split (command req) " " in
      let guarded := if (List.length cmds <? 1)%nat
                     then respError StatusBadRequest "no command given" else [] in
      match cmds with
      | [] => Panic guarded "index out of range [0] with length 0"
      | command :: subcmds =>
          let args := subcmds ++ fullArgs req ordFlags in
          Done (guarded ++ run command args (envStrings ordEnvs))
      end
  end.

End Gateway.

(** What [main] does before it serves: [Exit] is [os.Exit], [Serve] the
    package-level variables the handlers will read. *)
Inductive startup : Type :=
| Exit (code : nat)
| Serve (cfg : config).

(** [main], from [flag.Parse()] to the router: [parsed] holds the flags as
    parsed, [positional] is [flag.Args()]. *)
Definition main (parsed : config) (positional : list string) : startup :=
  if (List.length positional =? 0)%nat then Exit 1
  else
    let selected :=
      if String.eqb (strings.ToLower (responseType parsed)) "text"
      then (responseType parsed, RunText)
      else ("json", RunJson) in
    Serve {| addDashes := addDashes parsed;
             envKeyToUpper := envKeyToUpper parsed;
             responseType := selected.1;
             serverAddr := serverAddr parsed;
             verboseRun := verboseRun parsed;
             whitelist := positional;
             myRunner := selected.2 |}.

(** What the decoder that [c.Bind] selects makes of the body of a request:
    an error, or the values the body gives to command, flags, args and
    envs. *)
Inductive postBody : Type :=
| Malformed (msg : string)
| Decoded (sent : request).

(** [var req request] *)
Definition zero_request : request :=
  {| command := ""; flags := None; args := []; envs := None |}.

(** [c.Bind(&req)]. The decoders behind it (encoding/json, the form mapper)
    and the validator of the [binding] tags reach the fields of [req] by
    reflection and pass over the fields that are not exported. [request]
    (lines 28-34) has no exported field, so a body that decodes stores
    nothing in [req] and "required" is not enforced: [req] stays as it
    was. *)
Definition Bind (b : postBody) (req : request) : option string * request :=
  match b with
  | Malformed msg => (Some msg, req)
  | Decoded _ => (None, req)
  end.

(** [postHandler] from the body on: [var req request], [c.Bind(&req)], and
    the rest of the handler. *)
Definition postHandler_body (cfg : config) (exec : Cmd → procResult)
    (b : postBody) (ordFlags ordEnvs : list (string * string)) : outcome :=
  let req := zero_request in
  let bound := Bind b req in
  postHandler cfg exec bound.1 bound.2 ordFlags ordEnvs.

Definition trace (o : outcome) : list event :=
  match o with
  | Done tr | Panic tr _ => tr
  end.

(** The status codes answered on the context, in order. *)
Definition status_of (e : event) : option nat :=
  match e with
  | JSON status _ | Text status _ => Some status
  | _ => None
  end.

Definition statuses (tr : list event) : list nat := omap status_of tr.

(** The status a runner answers with, given how the process ended. *)
Definition runnerStatus (r : procResult) : nat :=
  match err r with
  | Some _ => StatusInternalServerError
  | None => StatusOK
  end.

(** ** The specification's wording, for comparison with the code *)

(** Sanitizer of the specification: "drop every element equal to the empty
    string after trimming; trim all surviving elements". *)
Definition sanitize_spec (args : list string) : list string :=
  filter (λ a, a ≠ "") (map strings.TrimSpace args).

(** Tokens of the specification, for a pair that is already trimmed: the key,
    dashed if asked for and not already so, then the value unless empty. *)
Definition dashed (addDashes : bool) (k : string) : string :=
  if addDashes && negb (strings.HasPrefix k "-")
  then (if (String.length k =? 1)%nat then "-" +:+ k else "--" +:+ k)
  else k.

Definition flagTokens_spec (addDashes : bool) (kv : string * string)
    : list string :=
  dashed addDashes (strings.TrimSpace kv.1)
  :: (if decide (strings.TrimSpace kv.2 = "") then [] else [strings.TrimSpace kv.2]).

(** The entry [envStrings] makes of one pair. *)
Definition envEntry (cfg : config) (kv : string * string) : string :=
  (if envKeyToUpper cfg then strings.ToUpper (strings.TrimSpace kv.1)
   else strings.TrimSpace kv.1) +:+ "=" +:+ strings.TrimSpace kv.2.

(** [strings.Join(pieces, sep)] for a one-byte separator. *)
Fixpoint Join (pieces : list string) (sep : ascii) : string :=
  match pieces with
  | [] => EmptyString
  | [piece] => piece
  | piece :: pieces' => piece +:+ String sep (Join pieces' sep)
  end.

Fixpoint hasByte (c : ascii) (s : string) : bool :=
  match s with
  | EmptyString => false
  | String d r => Ascii.eqb d c || hasByte c r
  end.

(** ** Sample configurations, requests and hosts *)

Definition tab : string := String "009" EmptyString.

(** The defaults of the command-line flags, with a whitelist. *)
Definition defaults (ws : list string) : config :=
  {| addDashes := false; envKeyToUpper := false; responseType := "json";
     serverAddr := "localhost:8080"; verboseRun := false;
     whitelist := ws; myRunner := RunJson |}.

Definition with_dashes (ws : list string) : config :=
  {| addDashes := true; envKeyToUpper := false; responseType := "json";
     serverAddr := "localhost:8080"; verboseRun := false;
     whitelist := ws; myRunner := RunJson |}.

(** A host on which every command succeeds and prints its own name. *)
Definition exec_echo (cmd : Cmd) : procResult :=
  {| stdout := Path cmd; stderr := ""; combined := Path cmd; err := None |}.

(** The command of GET /rm/-rf//. *)
Definition rm_rf : Cmd := {| Path := "rm"; Args := ["rm"; "-rf"]; Env := None |}.


Definition post (cmd : string) (args : list string) : request :=
  {| command := cmd; flags := None; args := args; envs := None |}.

(** The body {"command": "echo hi", "args": ["there"]}. *)
Definition echo_hi_there : request := post "echo hi" ["there"].

(** A host as os/exec gives it: a command without a path is refused by
    [cmd.Run()] with "exec: no command" before any process exists; every
    other command succeeds and prints its own name. *)
Definition exec_host (cmd : Cmd) : procResult :=
  if String.eqb (Path cmd) ""
  then {| stdout := ""; stderr := ""; combined := "";
          err := Some "exec: no command" |}
  else exec_echo cmd.

Definition flags_a_bee : gmap string string :=
  <["bee" := "1"]> (<["a" := ""]> ∅).

(** Flags as parsed from [-resp TeXt]. *)
Definition parsed_TeXt : config :=
  {| addDashes := false; envKeyToUpper := false; responseType := "TeXt";
     serverAddr := "localhost:8080"; verboseRun := false;
     whitelist := ["pwd"]; myRunner := RunJson |}.

(** The query of GET /ls/tmp?l=1 and the empty query. *)
Definition query_l : gmap string (list string) := {["l" := ["1"]]}.
Definition query_none : gmap string (list string) := ∅.

(** The query entries that [getHandler] copies into the flags. *)
Definition usable (kv : string * list string) : bool :=
  negb (String.eqb kv.1 "") && (0 <? length kv.2)%nat.

(** [cfg] with the -verbose flag set to [b]. *)
Definition with_verbose (b : bool) (cfg : config) : config :=
  {| addDashes := addDashes cfg; envKeyToUpper := envKeyToUpper cfg;
     responseType := responseType cfg; serverAddr := serverAddr cfg;
     verboseRun := b; whitelist := whitelist cfg; myRunner := myRunner cfg |}.

Definition is_log (e : event) : bool :=
  match e with
  | Printf _ => true
  | _ => false
  end.

(** What a trace shows to the client and the host: everything but the log. *)
Definition unlogged (tr : list event) : list event :=
  filter (λ e, is_log e = false) tr.

(** The strings [trimFront] has nothing to strip from: no white space rune
    at the front. *)
Definition frontClean (sp2 : ascii → ascii → bool)
    (sp3 : ascii → ascii → ascii → bool) (s : string) : bool :=
  match s with
  | EmptyString => true
  | String c r =>
      negb (strings.asciiSpace c)
      && match r with
         | EmptyString => true
         | String d r2 =>
             negb (sp2 c d)
             && match r2 with
                | EmptyString => true
                | String e _ => negb (sp3 c d e)
                end
         end
  end.

(** Defaults with -env-key-to-upper. *)
Definition with_upper (ws : list string) : config :=
  {| addDashes := false; envKeyToUpper := true; responseType := "json";
     serverAddr := "localhost:8080"; verboseRun := false;
     whitelist := ws; myRunner := RunJson |}.

Definition envs_k : gmap string string := {["k" := "v"]}.

(** A host on which every command fails. *)
Definition exec_fail (cmd : Cmd) : procResult :=
  {| stdout := "partial"; stderr := "boom"; combined := "partialboom";
     err := Some "exit status 1" |}.

(** The shapes of the answers the program means to give. *)
Definition well_formed_answer (e : event) : bool :=
  match e with
  | JSON status body =>
      if (status =? StatusOK)%nat
      then match body with
           | [(k1, _); (k2, _)] => String.eqb k1 "stdout" && String.eqb k2 "stderr"
           | _ => false
           end
      else ((status =? StatusBadRequest)%nat || (status =? StatusForbidden)%nat
            || (status =? StatusInternalServerError)%nat)
           && match body with
              | [(k, _)] => String.eqb k "error"
              | _ => false
              end
  | Text status _ => (status =? StatusOK)%nat
  | _ => true
  end.

(** ** Facts about the [strings] functions *)

Lemma Split_cons (s : string) (sep : ascii) :
  ∃ piece pieces, strings.Split s sep = piece :: pieces.
Proof.
  induction s as [|c r IH]; simpl; [by eauto|].
  destruct (Ascii.eqb c sep); [by eauto|].
  destruct IH as (p & ps & ->). by eauto.
Qed.

Lemma Split_length (s : string) (sep : ascii) :
  (1 ≤ List.length (strings.Split s sep))%nat.
Proof. destruct (Split_cons s sep) as (p & ps & ->). simpl. lia. Qed.

Lemma Join_cons (piece : string) (pieces : list string) (sep : ascii) :
  pieces ≠ [] → Join (piece :: pieces) sep = piece +:+ String sep (Join pieces sep).
Proof. by destruct pieces. Qed.

Lemma Split_Join (s : string) (sep : ascii) :
  Join (strings.Split s sep) sep = s.
Proof.
  induction s as [|c r IH]; simpl; [done|].
  destruct (Split_cons r sep) as (p & ps & Hs).
  destruct (Ascii.eqb_spec c sep) as [->|Hne].
  - rewrite Join_cons by (by rewrite Hs). simpl. by rewrite IH.
  - rewrite Hs in IH |- *. rewrite <- IH. by destruct ps.
Qed.

Lemma Split_no_sep (s : string) (sep : ascii) (piece : string) :
  piece ∈ strings.Split s sep → hasByte sep piece = false.
Proof.
  revert piece. induction s as [|c r IH]; simpl; intros piece Hin.
  - apply list_elem_of_singleton in Hin as ->. done.
  - destruct (Ascii.eqb_spec c sep) as [->|Hne].
    + apply elem_of_cons in Hin as [->|Hin]; [done|by apply IH].
    + destruct (Split_cons r sep) as (p & ps & Hs). rewrite Hs in IH, Hin.
      apply elem_of_cons in Hin as [->|Hin].
      * simpl. rewrite (IH p) by left.
        destruct (Ascii.eqb_spec c sep); [done|done].
      * apply IH. by right.
Qed.

Example TrimSpace_ascii : strings.TrimSpace (" " +:+ tab +:+ " bee  ") = "bee".
Proof. reflexivity. Qed.

Example TrimSpace_blank : strings.TrimSpace " " = "".
Proof. reflexivity. Qed.

Example TrimSpace_inner : strings.TrimSpace " a b " = "a b".
Proof. reflexivity. Qed.

(** U+2003 EM SPACE before and U+00A0 NO-BREAK SPACE after. *)
Example TrimSpace_unicode :
  strings.TrimSpace
    (String "226" (String "128" (String "131" ("x" +:+ String "194" (String "160" "")))))
  = "x".
Proof. reflexivity. Qed.

Example Split_path : strings.Split "/-rf//" "/" = [""; "-rf"; ""; ""].
Proof. reflexivity. Qed.

Example Split_empty : strings.Split "" " " = [""].
Proof. reflexivity. Qed.

Example Split_spaces : strings.Split "pip  install" " " = ["pip"; ""; "install"].
Proof. reflexivity. Qed.

(** ** The loops, in closed form *)

Lemma flagStrings_loop (cfg : config) (ord : list (string * string))
    (acc : list string) :
  fold_left (flagStrings_body cfg) ord acc
  = acc ++ concat (map (flagTokens_spec (addDashes cfg)) ord).
Proof.
  revert acc. induction ord as [|[k v] ord IH]; intros acc; simpl.
  - by rewrite app_nil_r.
  - rewrite IH. unfold flagStrings_body, flagTokens_spec, dashed. simpl.
    destruct (String.eqb_spec (strings.TrimSpace v) "") as [Hv|Hv];
      case_decide; try done; by rewrite <- ?app_assoc.
Qed.

Lemma argsFilter_loop (args acc : list string) :
  fold_left argsFilter_body args acc
  = acc ++ map strings.TrimSpace (filter (λ a, a ≠ "") args).
Proof.
  revert acc. induction args as [|a args IH]; intros acc; simpl.
  - by rewrite app_nil_r.
  - rewrite IH. unfold argsFilter_body.
    destruct (String.eqb_spec a "") as [->|Hne].
    + by rewrite filter_cons_False by naive_solver.
    + rewrite filter_cons_True by done. simpl. by rewrite <- app_assoc.
Qed.

Lemma envStrings_loop (cfg : config) (ord : list (string * string))
    (acc : list string) :
  fold_left (envStrings_body cfg) ord (Some acc)
  = Some (acc ++ map (envEntry cfg) ord).
Proof.
  revert acc. induction ord as [|kv ord IH]; intros acc; simpl.
  - by rewrite app_nil_r.
  - unfold envStrings_body at 2. unfold append1. simpl. rewrite IH.
    by rewrite <- app_assoc.
Qed.

Lemma envStrings_nil (cfg : config) : envStrings cfg [] = None.
Proof. done. Qed.

Lemma envStrings_cons (cfg : config) (kv : string * string)
    (ord : list (string * string)) :
  envStrings cfg (kv :: ord) = Some (map (envEntry cfg) (kv :: ord)).
Proof. unfold envStrings. simpl. unfold envStrings_body at 2. apply envStrings_loop. Qed.

Lemma range_order_nil {V : Type} (ord : list (string * V)) :
  range_order None ord → ord = [].
Proof. unfold range_order. simpl. apply Permutation_nil_r. Qed.


Lemma range_order_canonical {V : Type} (m : gmap string V) :
  range_order (Some m) (map_to_list m).
Proof. unfold range_order. simpl. reflexivity. Qed.

Lemma range_order_reverse {V : Type} (m : gmap string V) :
  range_order (Some m) (reverse (map_to_list m)).
Proof. unfold range_order. simpl. apply reverse_Permutation. Qed.

Lemma flags_a_bee_entries : map_to_list flags_a_bee = [("a", ""); ("bee", "1")].
Proof. vm_compute. reflexivity. Qed.

(** ** The whitelist guard *)

Lemma inWhitelist_loop_elem (command : string) (ws : list string) :
  inWhitelist_loop command ws = true ↔ command ∈ ws.
Proof.
  induction ws as [|w ws IH]; simpl.
  - split; [done|]. by intros ?%elem_of_nil.
  - destruct (String.eqb_spec command w) as [->|Hne].
    + split; [intros _; by left|done].
    + rewrite IH, elem_of_cons. split; [by right|by intros [?|?]].
Qed.

(** C7. [inWhitelist] is exact membership of the command in the whitelist:
    the strings are compared as they are, byte for byte, so a differently
    cased name, a proper prefix, a longer name or a name with a trailing
    space is not allowed. [inWhitelist "ls"] holds on the whitelist
    ["ls"; "pwd"] and [inWhitelist "ls "] fails on ["ls"]. *)
Theorem inWhitelist_exact_match (cfg : config) (command : string) :
  (inWhitelist cfg command = true ↔ command ∈ whitelist cfg)
  ∧ inWhitelist (defaults ["ls"; "pwd"]) "ls" = true
  ∧ inWhitelist (defaults ["ls"]) "ls " = false
  ∧ inWhitelist (defaults ["ls"]) "LS" = false
  ∧ inWhitelist (defaults ["ls"]) "l" = false
  ∧ inWhitelist (defaults ["ls"]) "lsof" = false
  ∧ inWhitelist (defaults ["l*"]) "ls" = false.
Proof.
  split; [apply inWhitelist_loop_elem|]. by repeat split.
Qed.

(** ** The argument sanitizer *)

(** C3, as stated, fails: on ["", " ", "x", ""] the code answers ["", "x"].
    The blank element is not the empty string when it is tested, so it is
    kept, and trimming then turns it into an empty argument. *)
Lemma argsFilter_keeps_blank :
  argsFilter [""; " "; "x"; ""] = [""; "x"]
  ∧ argsFilter [""; " "; "x"; ""] ≠ ["x"]
  ∧ argsFilter [""; " "; "x"; ""] ≠ sanitize_spec [""; " "; "x"; ""].
Proof. by repeat split. Qed.

Lemma sanitize_spec_after_filter (args : list string) :
  sanitize_spec args
  = filter (λ a, a ≠ "") (map strings.TrimSpace (filter (λ a, a ≠ "") args)).
Proof.
  unfold sanitize_spec. induction args as [|a args IH]; [done|].
  destruct (decide (a = "")) as [->|Hne].
  - rewrite (filter_cons_False _ "" args) by naive_solver. simpl.
    change (strings.TrimSpace "") with "".
    by rewrite filter_cons_False by naive_solver.
  - rewrite (filter_cons_True _ a args) by done. simpl.
    destruct (decide (strings.TrimSpace a = "")) as [He|Hn].
    + by rewrite !filter_cons_False by naive_solver.
    + rewrite !filter_cons_True by done. by f_equal.
Qed.

(** C3, amended. [argsFilter] drops the elements that are the empty string
    as given, before any trimming, and trims the others, keeping their
    order; an element made of white space only therefore survives as an
    empty string, and dropping those afterwards is what the specification's
    sanitizer does. [argsFilter ["", " ", "x", ""]] is ["", "x"]. *)
Theorem argsFilter_drops_then_trims (args : list string) :
  argsFilter args = map strings.TrimSpace (filter (λ a, a ≠ "") args)
  ∧ sanitize_spec args = filter (λ a, a ≠ "") (argsFilter args)
  ∧ argsFilter [""; " "; "x"; ""] = [""; "x"].
Proof.
  assert (Hloop : argsFilter args
                  = map strings.TrimSpace (filter (λ a, a ≠ "") args))
    by apply (argsFilter_loop args []).
  split; [done|]. split; [|done].
  rewrite Hloop. apply sanitize_spec_after_filter.
Qed.

(** ** Flags to strings *)

Lemma flagStrings_tokens (cfg : config) (ord : list (string * string)) :
  flagStrings cfg ord = concat (map (flagTokens_spec (addDashes cfg)) ord).
Proof. apply (flagStrings_loop cfg ord []). Qed.

Lemma flagStrings_Permutation (cfg : config) (ord ord' : list (string * string)) :
  ord ≡ₚ ord' → flagStrings cfg ord ≡ₚ flagStrings cfg ord'.
Proof. intros Hp. rewrite !flagStrings_tokens. by rewrite Hp. Qed.

(** C6, as stated, fails: a Go map keeps no insertion order and [range]
    visits it in an order of the runtime's choosing. The map built by
    inserting "a" and then "bee" may be visited "bee" first, and
    [flagStrings] then answers ["--bee", "1", "-a"]. *)
Lemma flagStrings_not_insertion_order :
  ∃ ord : list (string * string),
    range_order (Some flags_a_bee) ord
    ∧ flagStrings (with_dashes ["pwd"]) ord = ["--bee"; "1"; "-a"]
    ∧ flagStrings (with_dashes ["pwd"]) ord ≠ ["-a"; "--bee"; "1"].
Proof.
  exists [("bee", "1"); ("a", "")]. split; [|by split].
  unfold range_order. simpl. rewrite flags_a_bee_entries. apply perm_swap.
Qed.

(** C6, amended. With add-dashes enabled, [flagStrings] emits for each pair,
    in the order in which [range] happens to visit the map, the trimmed key
    (prefixed with "-" when it does not start with a dash and is one byte
    long, with "--" when it does not start with a dash and has another
    length) followed by the trimmed value iff that is not empty. The tokens
    of one pair stay together and the result is the same up to the order of
    the pairs; for {"a": "", "bee": "1"} it is ["-a", "--bee", "1"] or
    ["--bee", "1", "-a"]. *)
Theorem flagStrings_in_range_order (cfg : config)
    (flags : option (gmap string string)) (ord : list (string * string)) :
  addDashes cfg = true →
  range_order flags ord →
  flagStrings cfg ord = concat (map (flagTokens_spec true) ord)
  ∧ flagStrings cfg ord
    ≡ₚ concat (map (flagTokens_spec true) (from_option map_to_list [] flags))
  ∧ (flags = Some flags_a_bee →
     flagStrings cfg ord = ["-a"; "--bee"; "1"]
     ∨ flagStrings cfg ord = ["--bee"; "1"; "-a"]).
Proof.
  intros Hd Hr. rewrite flagStrings_tokens, Hd. split; [done|]. split.
  - unfold range_order in Hr. by rewrite Hr.
  - intros ->. unfold range_order in Hr. simpl in Hr.
    rewrite flags_a_bee_entries in Hr. symmetry in Hr.
    apply Permutation_length_2_inv in Hr as [-> | ->]; [by left|by right].
Qed.

Lemma flagStrings_in_range_order_witness :
  addDashes (with_dashes ["pwd"]) = true
  ∧ range_order (Some flags_a_bee) [("bee", "1"); ("a", "")]
  ∧ flagStrings (with_dashes ["pwd"]) [("bee", "1"); ("a", "")]
    = concat (map (flagTokens_spec true) [("bee", "1"); ("a", "")])
  ∧ flagStrings (with_dashes ["pwd"]) [("bee", "1"); ("a", "")]
    ≡ₚ concat (map (flagTokens_spec true) (map_to_list flags_a_bee))
  ∧ (Some flags_a_bee = Some flags_a_bee →
     flagStrings (with_dashes ["pwd"]) [("bee", "1"); ("a", "")]
     = ["-a"; "--bee"; "1"]
     ∨ flagStrings (with_dashes ["pwd"]) [("bee", "1"); ("a", "")]
       = ["--bee"; "1"; "-a"]).
Proof.
  assert (Hd : addDashes (with_dashes ["pwd"]) = true) by reflexivity.
  assert (Hr : range_order (Some flags_a_bee) [("bee", "1"); ("a", "")])
    by (unfold range_order; vm_compute; apply perm_swap).
  exact (conj Hd (conj Hr
    (flagStrings_in_range_order (with_dashes ["pwd"]) (Some flags_a_bee)
       [("bee", "1"); ("a", "")] Hd Hr))).
Defined.

(** ** What [run] does *)

Lemma spawns_app (tr tr' : list event) : spawns (tr ++ tr') = spawns tr ++ spawns tr'.
Proof. apply omap_app. Qed.

Lemma statuses_app (tr tr' : list event) :
  statuses (tr ++ tr') = statuses tr ++ statuses tr'.
Proof. apply omap_app. Qed.

Lemma spawns_checkCommand (cfg : config) (command : string) (args : list string) :
  spawns (checkCommand cfg command args) = [].
Proof.
  unfold checkCommand. destruct (inWhitelist cfg command); [done|].
  simpl. by destruct (verboseRun cfg).
Qed.

Lemma spawns_callRunner (cfg : config) (exec : Cmd → procResult) (cmd : Cmd) :
  spawns (callRunner cfg exec (myRunner cfg) cmd) = [cmd].
Proof.
  unfold callRunner, runText, runJson.
  destruct (myRunner cfg), (err (exec cmd)), (verboseRun cfg); done.
Qed.

(** [run] starts the command it is given, once, whatever [checkCommand]
    answered. *)
Lemma spawns_run (cfg : config) (exec : Cmd → procResult) (command : string)
    (args : list string) (env : option (list string)) :
  spawns (run cfg exec command args env)
  = [{| Path := command; Args := command :: argsFilter args; Env := env |}].
Proof.
  unfold run. rewrite !spawns_app, spawns_checkCommand, spawns_callRunner. done.
Qed.

Lemma statuses_checkCommand (cfg : config) (command : string) (args : list string) :
  statuses (checkCommand cfg command args)
  = if inWhitelist cfg command then [] else [StatusForbidden].
Proof.
  unfold checkCommand. destruct (inWhitelist cfg command); [done|].
  simpl. by destruct (verboseRun cfg).
Qed.

Lemma statuses_callRunner (cfg : config) (exec : Cmd → procResult) (cmd : Cmd) :
  statuses (callRunner cfg exec (myRunner cfg) cmd)
  = [runnerStatus (exec cmd)].
Proof.
  unfold callRunner, runText, runJson, runnerStatus.
  destruct (myRunner cfg), (err (exec cmd)), (verboseRun cfg); done.
Qed.

(** The answers of [run]: the 403 of a failed check if any, then the answer
    of the runner. *)
Lemma statuses_run (cfg : config) (exec : Cmd → procResult) (command : string)
    (args : list string) (env : option (list string)) :
  statuses (run cfg exec command args env)
  = (if inWhitelist cfg command then [] else [StatusForbidden])
    ++ [runnerStatus (exec {| Path := command; Args := command :: argsFilter args;
                               Env := env |})].
Proof.
  unfold run. rewrite !statuses_app, statuses_checkCommand, statuses_callRunner.
  done.
Qed.

(** ** The whitelist guard in [run] *)

(** C1, at GET /rm/-rf// with the whitelist {"pwd"}: the check fails and the
    403 with body {"error": "command not allowed."} is answered first, but
    [checkCommand] cannot stop [run], which goes on to filter the arguments
    and to start [rm -rf]; the runner then answers a second time. *)
Theorem forbidden_command_is_still_run (exec : Cmd → procResult) :
  inWhitelist (defaults ["pwd"]) "rm" = false
  ∧ (∃ rest : list event,
       getHandler (defaults ["pwd"]) exec "rm" "/-rf//" [] []
       = Done (JSON StatusForbidden [("error", "command not allowed.")]
               :: Printf (LogRunning "rm" ["-rf"])
               :: CmdRun rm_rf :: rest))
  ∧ spawns (trace (getHandler (defaults ["pwd"]) exec "rm" "/-rf//" [] []))
    = [rm_rf]
  ∧ statuses (trace (getHandler (defaults ["pwd"]) exec "rm" "/-rf//" [] []))
    = [StatusForbidden; runnerStatus (exec rm_rf)].
Proof.
  split; [done|]. split; [|split].
  - eexists. cbn. reflexivity.
  - apply (spawns_run (defaults ["pwd"]) exec "rm" [""; "-rf"; ""; ""] None).
  - apply (statuses_run (defaults ["pwd"]) exec "rm" [""; "-rf"; ""; ""] None).
Qed.

(** ** The handlers *)

(** [postHandler] on a bound request: the guard on [len(cmds)] is passed
    and [run] is reached with the first piece of the command. *)
Lemma postHandler_bound (cfg : config) (exec : Cmd → procResult) (req : request)
    (ordFlags ordEnvs : list (string * string)) :
  postHandler cfg exec None req ordFlags ordEnvs
  = Done (run cfg exec (hd "" (strings.Split (command req) " "))
            (tail (strings.Split (command req) " ") ++ fullArgs cfg req ordFlags)
            (envStrings cfg ordEnvs)).
Proof.
  unfold postHandler.
  by destruct (Split_cons (command req) " ") as (p & ps & ->).
Qed.

(** The loop of [getHandler] starts from the nil map of [var req request]:
    it panics at the first usable entry, and leaves the map nil otherwise. *)
Lemma getHandler_loop_nil (query : list (string * list string)) :
  getHandler_loop None query
  = if existsb usable query then Panics "assignment to entry in nil map"
    else Ok None.
Proof.
  induction query as [|[k v] query IH]; simpl; [done|].
  unfold usable at 1. simpl.
  by destruct (negb (String.eqb k "") && (0 <? length v)%nat).
Qed.

Lemma getHandler_cases (cfg : config) (exec : Cmd → procResult)
    (pCommand pArgs : string) (query : list (string * list string))
    (ordFlags : list (string * string)) :
  getHandler cfg exec pCommand pArgs query ordFlags
  = if existsb usable query then Panic [] "assignment to entry in nil map"
    else Done (run cfg exec pCommand
                 (flagStrings cfg ordFlags ++ strings.Split pArgs "/") None).
Proof.
  unfold getHandler. simpl. rewrite getHandler_loop_nil.
  by destruct (existsb usable query).
Qed.

Lemma usable_spec (k : string) (vs : list string) :
  usable (k, vs) = true ↔ k ≠ "" ∧ vs ≠ [].
Proof.
  unfold usable. simpl. rewrite andb_true_iff, negb_true_iff.
  destruct (String.eqb_spec k "") as [->|Hne], vs as [|v vs]; simpl;
    split; intros [? ?]; try done; split; try done; lia.
Qed.

(** C8. A GET request whose query has a parameter with a non-empty name and
    at least one value makes [getHandler] assign into the flags map, which
    is still the nil map of [var req request]: the handler panics there,
    before anything is answered or run. A GET request without such a
    parameter never assigns, and goes on to [run] with the path segments as
    its arguments and a nil environment. *)
Theorem getHandler_writes_nil_flags (cfg : config) (exec : Cmd → procResult)
    (pCommand pArgs : string) (query : gmap string (list string))
    (ordQuery : list (string * list string)) (ordFlags : list (string * string)) :
  range_order (Some query) ordQuery →
  range_order None ordFlags →
  ((∃ k vs, query !! k = Some vs ∧ k ≠ "" ∧ vs ≠ []) →
   getHandler cfg exec pCommand pArgs ordQuery ordFlags
   = Panic [] "assignment to entry in nil map")
  ∧ ((∀ k vs, query !! k = Some vs → k = "" ∨ vs = []) →
     getHandler cfg exec pCommand pArgs ordQuery ordFlags
     = Done (run cfg exec pCommand (strings.Split pArgs "/") None)).
Proof.
  intros Hq ->%range_order_nil. unfold range_order in Hq. simpl in Hq.
  rewrite getHandler_cases. split.
  - intros (k & vs & Hk & Hne & Hvs).
    assert (Hex : existsb usable ordQuery = true); [|by rewrite Hex].
    apply existsb_exists. exists (k, vs). split.
    + apply list_elem_of_In. rewrite Hq. by apply elem_of_map_to_list.
    + by apply usable_spec.
  - intros Hnone.
    assert (Hex : existsb usable ordQuery = false); [|by rewrite Hex].
    apply not_true_is_false. intros ([k vs] & Hin & Hu)%existsb_exists.
    apply list_elem_of_In in Hin. rewrite Hq in Hin.
    apply elem_of_map_to_list in Hin. apply usable_spec in Hu as [Hk Hvs].
    by destruct (Hnone k vs Hin).
Qed.

Lemma getHandler_writes_nil_flags_witness :
  range_order (Some query_l) [("l", ["1"])]
  ∧ range_order (None : option (gmap string string)) []
  ∧ getHandler (defaults ["ls"]) exec_echo "ls" "/tmp" [("l", ["1"])] []
    = Panic [] "assignment to entry in nil map".
Proof.
  assert (Hq : range_order (Some query_l) [("l", ["1"])])
    by (unfold range_order; vm_compute; reflexivity).
  assert (Hf : range_order (None : option (gmap string string)) [])
    by (unfold range_order; simpl; reflexivity).
  refine (conj Hq (conj Hf _)).
  apply (getHandler_writes_nil_flags (defaults ["ls"]) exec_echo "ls" "/tmp"
           query_l [("l", ["1"])] [] Hq Hf).
  exists "l", ["1"]. by vm_compute.
Defined.

(** ** The environment of the child *)




(** ** The command of a POST request *)

Lemma run_starts_with_check (cfg : config) (exec : Cmd → procResult)
    (command : string) (args : list string) (env : option (list string)) :
  ∃ rest, run cfg exec command args env = checkCommand cfg command args ++ rest.
Proof. unfold run. by eexists. Qed.

Lemma elem_of_statuses (tr : list event) (status : nat) (body : list (string * string)) :
  JSON status body ∈ tr → status ∈ statuses tr.
Proof.
  intros Hin. unfold statuses. apply list_elem_of_omap.
  by exists (JSON status body).
Qed.

Lemma statuses_run_not_400 (cfg : config) (exec : Cmd → procResult)
    (command : string) (args : list string) (env : option (list string)) :
  StatusBadRequest ∉ statuses (run cfg exec command args env).
Proof.
  rewrite statuses_run. unfold runnerStatus.
  destruct (inWhitelist cfg command), (err (exec _)); simpl;
    intros Hin; repeat (apply elem_of_cons in Hin as [Hin|Hin]; [done|]);
    by apply elem_of_nil in Hin.
Qed.

(** C9. [strings.Split] on a space yields at least one piece for every
    string, so the guard [len(cmds) < 1] of [postHandler] never holds and
    its 400 "no command given" is never answered: a bound request always
    reaches [run] with the first piece as the program. When the command
    field is the empty string that program is "", and the first thing
    [run] does with it is the whitelist check. *)
Theorem no_command_given_unreachable (cfg : config) (exec : Cmd → procResult)
    (req : request) (ordFlags ordEnvs : list (string * string)) :
  (∀ s : string, (1 ≤ length (strings.Split s " "))%nat
                 ∧ (length (strings.Split s " ") <? 1)%nat = false)
  ∧ postHandler cfg exec None req ordFlags ordEnvs
    = Done (run cfg exec (hd "" (strings.Split (command req) " "))
              (tail (strings.Split (command req) " ") ++ fullArgs cfg req ordFlags)
              (envStrings cfg ordEnvs))
  ∧ (JSON StatusBadRequest [("error", "no command given")]
     ∉ trace (postHandler cfg exec None req ordFlags ordEnvs))
  ∧ (StatusBadRequest
     ∉ statuses (trace (postHandler cfg exec None req ordFlags ordEnvs)))
  ∧ (∀ fl ar en,
       postHandler cfg exec None
         {| command := ""; flags := fl; args := ar; envs := en |} ordFlags ordEnvs
       = Done (run cfg exec "" (flagStrings cfg ordFlags ++ ar)
                 (envStrings cfg ordEnvs))
       ∧ (∃ rest, run cfg exec "" (flagStrings cfg ordFlags ++ ar)
                    (envStrings cfg ordEnvs)
                  = checkCommand cfg "" (flagStrings cfg ordFlags ++ ar) ++ rest)).
Proof.
  assert (H400 : StatusBadRequest
                 ∉ statuses (trace (postHandler cfg exec None req ordFlags ordEnvs))).
  { rewrite postHandler_bound. apply statuses_run_not_400. }
  split; [|split; [|split; [|split]]].
  - intros s. pose proof (Split_length s " ") as Hl. split; [done|].
    apply Nat.ltb_ge. exact Hl.
  - apply postHandler_bound.
  - intros Hin. apply H400. eapply elem_of_statuses, Hin.
  - exact H400.
  - intros fl ar en. split; [done|]. apply run_starts_with_check.
Qed.

(** C4, at a POST request whose command field is the empty string, with the
    whitelist {"pwd"}: no 400 is answered. The program "" goes to the
    whitelist check, which answers 403, and [run] then hands it to the
    runner all the same. *)
Theorem empty_command_reaches_whitelist (exec : Cmd → procResult) :
  hd "" (strings.Split (command (post "" [])) " ") = ""
  ∧ inWhitelist (defaults ["pwd"]) "" = false
  ∧ (∃ rest : list event,
       postHandler (defaults ["pwd"]) exec None (post "" []) [] []
       = Done (JSON StatusForbidden [("error", "command not allowed.")] :: rest))
  ∧ statuses (trace (postHandler (defaults ["pwd"]) exec None (post "" []) [] []))
    = [StatusForbidden;
       runnerStatus (exec {| Path := ""; Args := [""]; Env := None |})]
  ∧ spawns (trace (postHandler (defaults ["pwd"]) exec None (post "" []) [] []))
    = [{| Path := ""; Args := [""]; Env := None |}].
Proof.
  split; [done|]. split; [done|]. split; [|split].
  - eexists. cbn. reflexivity.
  - apply (statuses_run (defaults ["pwd"]) exec "" [] None).
  - apply (spawns_run (defaults ["pwd"]) exec "" [] None).
Qed.

(** What the rest of [postHandler] makes of the request it holds: the
    command is split at each space byte (the pieces contain no space and,
    joined by spaces, give the field back), the first piece is the program,
    and the argument vector before sanitization is the remaining pieces,
    followed by [flagStrings] of the flags, followed by the args. This is
    the pipeline the comment of [postHandler] describes. *)
Lemma postHandler_splits_on_space (cfg : config) (exec : Cmd → procResult)
    (req : request) (ordFlags ordEnvs : list (string * string)) :
  ∃ (program : string) (subcmds : list string),
    strings.Split (command req) " " = program :: subcmds
    ∧ Join (program :: subcmds) " " = command req
    ∧ (∀ piece, piece ∈ program :: subcmds → hasByte " " piece = false)
    ∧ postHandler cfg exec None req ordFlags ordEnvs
      = Done (run cfg exec program
                (subcmds ++ flagStrings cfg ordFlags ++ args req)
                (envStrings cfg ordEnvs))
    ∧ spawns (trace (postHandler cfg exec None req ordFlags ordEnvs))
      = [{| Path := program;
            Args := program
                    :: argsFilter (subcmds ++ flagStrings cfg ordFlags ++ args req);
            Env := envStrings cfg ordEnvs |}].
Proof.
  destruct (Split_cons (command req) " ") as (p & ps & Hs).
  exists p, ps. split; [done|]. split; [|split; [|split]].
  - rewrite <- Hs. apply Split_Join.
  - intros piece Hin. rewrite <- Hs in Hin. by apply Split_no_sep in Hin.
  - rewrite postHandler_bound, Hs. done.
  - rewrite postHandler_bound, Hs. simpl. by rewrite spawns_run.
Qed.

(** A body that decodes leaves the request as [var req request] made it,
    whatever it holds: the handler goes on with the program "", no argument
    and the nil environment. *)
Lemma postHandler_body_decoded (cfg : config) (exec : Cmd → procResult)
    (sent : request) :
  postHandler_body cfg exec (Decoded sent) [] [] = Done (run cfg exec "" [] None).
Proof. reflexivity. Qed.

(** C5, at the POST body {"command": "echo hi", "args": ["there"]} with the
    whitelist {"echo"}. No field of [request] is exported, so [c.Bind]
    stores nothing of the body: the command that is split is "", the
    program handed to the runner is "" and not "echo", and the arguments
    "hi" and "there" are lost. The whitelist check answers 403, and on a
    host where os/exec refuses the empty program the runner answers 500
    with "exec: no command". The same happens for every body that decodes. *)
Theorem post_body_is_never_bound (exec : Cmd → procResult) :
  Bind (Decoded echo_hi_there) zero_request = (None, zero_request)
  ∧ (∀ (cfg : config) (sent : request),
       postHandler_body cfg exec (Decoded sent) [] []
       = Done (run cfg exec "" [] None))
  ∧ spawns (trace (postHandler_body (defaults ["echo"]) exec
                     (Decoded echo_hi_there) [] []))
    = [{| Path := ""; Args := [""]; Env := None |}]
  ∧ spawns (trace (postHandler_body (defaults ["echo"]) exec
                     (Decoded echo_hi_there) [] []))
    ≠ [{| Path := "echo"; Args := ["echo"; "hi"; "there"]; Env := None |}]
  ∧ statuses (trace (postHandler_body (defaults ["echo"]) exec
                       (Decoded echo_hi_there) [] []))
    = [StatusForbidden;
       runnerStatus (exec {| Path := ""; Args := [""]; Env := None |})]
  ∧ postHandler_body (defaults ["echo"]) exec_host (Decoded echo_hi_there) [] []
    = Done [JSON StatusForbidden [("error", "command not allowed.")];
            Printf (LogRunning "" []);
            CmdRun {| Path := ""; Args := [""]; Env := None |};
            Printf (LogFailed {| Path := ""; Args := [""]; Env := None |}
                      "exec: no command");
            JSON StatusInternalServerError
              [("error", "failed to run cmd: exec: no command")]].
Proof.
  split; [done|]. split; [intros; apply postHandler_body_decoded|].
  rewrite !postHandler_body_decoded. cbn [trace].
  rewrite spawns_run, statuses_run. by repeat split.
Qed.

(** ** Startup *)

Lemma lowerByte_is (c : ascii) :
  Ascii.eqb (strings.lowerByte c) "t" = Ascii.eqb c "t" || Ascii.eqb c "T"
  ∧ Ascii.eqb (strings.lowerByte c) "e" = Ascii.eqb c "e" || Ascii.eqb c "E"
  ∧ Ascii.eqb (strings.lowerByte c) "x" = Ascii.eqb c "x" || Ascii.eqb c "X".
Proof. destruct c as [[] [] [] [] [] [] [] []]; by vm_compute. Qed.

Lemma lowerByte_letter (c lo up : ascii) :
  Ascii.eqb (strings.lowerByte c) lo = Ascii.eqb c lo || Ascii.eqb c up →
  strings.lowerByte c = lo ↔ c = lo ∨ c = up.
Proof.
  intros He. rewrite <- Ascii.eqb_eq, He, orb_true_iff, !Ascii.eqb_eq. done.
Qed.

(** In the byte model, the selectors whose lower-case form is "text" are
    the sixteen spellings of that word in upper and lower case letters. *)
Lemma ToLower_text (s : string) :
  strings.ToLower s = "text"
  ↔ ∃ c1 c2 c3 c4 : ascii,
      s = String c1 (String c2 (String c3 (String c4 EmptyString)))
      ∧ (c1 = "t" ∨ c1 = "T")%char ∧ (c2 = "e" ∨ c2 = "E")%char
      ∧ (c3 = "x" ∨ c3 = "X")%char ∧ (c4 = "t" ∨ c4 = "T")%char.
Proof.
  split.
  - destruct s as [|c1 [|c2 [|c3 [|c4 [|c5 s]]]]]; simpl; try done.
    intros [= H1 H2 H3 H4]. exists c1, c2, c3, c4. split; [done|].
    apply (lowerByte_letter c1 "t" "T") in H1; [|apply lowerByte_is].
    apply (lowerByte_letter c2 "e" "E") in H2; [|apply lowerByte_is].
    apply (lowerByte_letter c3 "x" "X") in H3; [|apply lowerByte_is].
    apply (lowerByte_letter c4 "t" "T") in H4; [|apply lowerByte_is].
    done.
  - intros (c1 & c2 & c3 & c4 & -> & H1 & H2 & H3 & H4).
    by destruct H1 as [-> | ->], H2 as [-> | ->], H3 as [-> | ->],
      H4 as [-> | ->].
Qed.

(** C10. [main] compares the lower-case form of the -resp value with
    "text": if they are equal the text runner is selected and the stored
    value is left as it was given; for every other value the JSON runner is
    selected and the stored value becomes "json". With a whitelist, [main]
    goes on to serve whatever the value is. *)
Theorem main_selects_runner (parsed : config) (positional : list string) :
  positional ≠ [] →
  ∃ cfg : config,
    main parsed positional = Serve cfg
    ∧ whitelist cfg = positional
    ∧ (strings.ToLower (responseType parsed) = "text" →
       myRunner cfg = RunText ∧ responseType cfg = responseType parsed)
    ∧ (strings.ToLower (responseType parsed) ≠ "text" →
       myRunner cfg = RunJson ∧ responseType cfg = "json").
Proof.
  intros Hne. unfold main.
  destruct positional as [|w ws]; [done|]. simpl.
  destruct (String.eqb_spec (strings.ToLower (responseType parsed)) "text")
    as [He|He]; eexists; (split; [reflexivity|]); simpl; by repeat split.
Qed.

Lemma main_selects_runner_witness :
  ["pwd"] ≠ []
  ∧ strings.ToLower (responseType parsed_TeXt) = "text"
  ∧ ∃ cfg : config,
      main parsed_TeXt ["pwd"] = Serve cfg
      ∧ myRunner cfg = RunText ∧ responseType cfg = "TeXt".
Proof.
  assert (Hne : ["pwd"] ≠ ([] : list string)) by discriminate.
  assert (Hl : strings.ToLower (responseType parsed_TeXt) = "text")
    by reflexivity.
  refine (conj Hne (conj Hl _)).
  destruct (main_selects_runner parsed_TeXt ["pwd"] Hne)
    as (cfg & Hm & _ & Ht & _).
  exists cfg. split; [exact Hm|]. exact (Ht Hl).
Defined.

(** The whitelist check does not gate [run]: a command that is not allowed
    is answered 403 and started all the same, once, with the sanitized
    arguments. *)
Lemma run_ignores_check (cfg : config) (exec : Cmd → procResult)
    (command : string) (args : list string) (env : option (list string)) :
  inWhitelist cfg command = false →
  statuses (run cfg exec command args env)
  = [StatusForbidden;
     runnerStatus (exec {| Path := command; Args := command :: argsFilter args;
                           Env := env |})]
  ∧ spawns (run cfg exec command args env)
    = [{| Path := command; Args := command :: argsFilter args; Env := env |}].
Proof. intros Hw. by rewrite statuses_run, spawns_run, Hw. Qed.

(** * Further properties of the program *)

(** ** [strings.TrimSpace] *)

Section Trim.
Variable sp2 : ascii → ascii → bool.
Variable sp3 : ascii → ascii → ascii → bool.

Lemma trimFront_clean_id (s : string) :
  frontClean sp2 sp3 s = true → strings.trimFront sp2 sp3 s = s.
Proof.
  destruct s as [|c [|d [|e r]]]; simpl; [done| | |].
  - rewrite andb_true_r. by intros ->%negb_true_iff.
  - rewrite andb_true_r.
    by intros [->%negb_true_iff ->%negb_true_iff]%andb_true_iff.
  - intros [->%negb_true_iff [->%negb_true_iff ->%negb_true_iff]%andb_true_iff]%andb_true_iff.
    done.
Qed.

Lemma trimFront_suffix_clean (n : nat) (s : string) :
  (String.length s ≤ n)%nat →
  (∃ p, s = p +:+ strings.trimFront sp2 sp3 s)
  ∧ frontClean sp2 sp3 (strings.trimFront sp2 sp3 s) = true.
Proof.
  revert s. induction n as [|n IH]; intros s Hn.
  { destruct s; [|simpl in Hn; lia]. split; [by exists ""|done]. }
  destruct s as [|c r]; [split; [by exists ""|done]|].
  simpl in Hn. simpl.
  destruct (strings.asciiSpace c) eqn:Hc.
  { destruct (IH r) as [[p Hp] Hcl]; [lia|]. split; [|done].
    exists (String c p). exact (f_equal (String c) Hp). }
  destruct r as [|d r2].
  { split; [by exists ""|]. simpl. by rewrite Hc. }
  simpl in Hn.
  destruct (sp2 c d) eqn:Hd.
  { destruct (IH r2) as [[p Hp] Hcl]; [lia|]. split; [|done].
    exists (String c (String d p)).
    exact (f_equal (λ x, String c (String d x)) Hp). }
  destruct r2 as [|e r3].
  { split; [by exists ""|]. simpl. by rewrite Hc, Hd. }
  simpl in Hn.
  destruct (sp3 c d e) eqn:He.
  { destruct (IH r3) as [[p Hp] Hcl]; [lia|]. split; [|done].
    exists (String c (String d (String e p))).
    exact (f_equal (λ x, String c (String d (String e x))) Hp). }
  split; [by exists ""|]. simpl. by rewrite Hc, Hd, He.
Qed.

Lemma frontClean_prefix (t q : string) :
  frontClean sp2 sp3 (t +:+ q) = true → frontClean sp2 sp3 t = true.
Proof.
  destruct t as [|c [|d [|e r]]]; simpl; [done| | |done].
  - destruct q as [|d q]; simpl; [done|].
    rewrite andb_true_r. by intros [-> _]%andb_true_iff.
  - destruct q as [|e q]; simpl; [done|].
    rewrite andb_true_r.
    by intros [-> [-> _]%andb_true_iff]%andb_true_iff.
Qed.
End Trim.

Lemma append_cons (x : ascii) (a b : string) :
  String x a +:+ b = String x (a +:+ b).
Proof. reflexivity. Qed.

Lemma append_assoc (a b c : string) : (a +:+ b) +:+ c = a +:+ (b +:+ c).
Proof.
  induction a as [|x a IH]; [done|]. rewrite !append_cons. by rewrite IH.
Qed.

Lemma append_nil_r (a : string) : a +:+ "" = a.
Proof. induction a as [|x a IH]; [done|]. rewrite append_cons. by rewrite IH. Qed.

Lemma rev_app_spec (a b : string) : String.rev_app a b = String.rev a +:+ b.
Proof.
  unfold String.rev. revert b. induction a as [|c a IH]; intros b; simpl; [done|].
  rewrite (IH (String c b)), (IH (String c "")).
  by rewrite append_assoc.
Qed.

Lemma rev_append (a b : string) : String.rev (a +:+ b) = String.rev b +:+ String.rev a.
Proof.
  induction a as [|c a IH].
  - by rewrite append_nil_r.
  - rewrite append_cons. unfold String.rev at 1 3. simpl.
    rewrite !rev_app_spec, IH.
    by rewrite append_assoc.
Qed.

Lemma rev_involutive (s : string) : String.rev (String.rev s) = s.
Proof.
  induction s as [|c s IH]; [done|].
  unfold String.rev at 2. simpl. rewrite rev_app_spec, rev_append, IH. done.
Qed.

Lemma hasByte_app (c : ascii) (a b : string) :
  hasByte c (a +:+ b) = hasByte c a || hasByte c b.
Proof.
  induction a as [|d a IH]; [done|]. rewrite append_cons. simpl.
  by rewrite IH, orb_assoc.
Qed.

Lemma TrimSpace_inside (s : string) :
  ∃ p q, s = p +:+ strings.TrimSpace s +:+ q.
Proof.
  unfold strings.TrimSpace, strings.TrimRightSpace, strings.TrimLeftSpace.
  set (l := strings.trimFront strings.space2 strings.space3 s).
  destruct (trimFront_suffix_clean strings.space2 strings.space3 _ s (le_n _))
    as [[p Hp] _]. fold l in Hp.
  destruct (trimFront_suffix_clean (λ d c, strings.space2 c d)
              (λ e d c, strings.space3 c d e) _ (String.rev l) (le_n _))
    as [[q Hq] _].
  exists p, (String.rev q).
  rewrite <- rev_append, <- Hq, rev_involutive. done.
Qed.

Lemma TrimSpace_idempotent (s : string) :
  strings.TrimSpace (strings.TrimSpace s) = strings.TrimSpace s.
Proof.
  unfold strings.TrimSpace, strings.TrimRightSpace, strings.TrimLeftSpace.
  set (l := strings.trimFront strings.space2 strings.space3 s).
  set (F := strings.trimFront (λ d c, strings.space2 c d)
              (λ e d c, strings.space3 c d e)).
  destruct (trimFront_suffix_clean strings.space2 strings.space3 _ s (le_n _))
    as [_ Hl]. fold l in Hl.
  destruct (trimFront_suffix_clean (λ d c, strings.space2 c d)
              (λ e d c, strings.space3 c d e) _ (String.rev l) (le_n _))
    as [[q Hq] Hr]. fold F in Hq, Hr.
  assert (Hpre : l = String.rev (F (String.rev l)) +:+ String.rev q).
  { by rewrite <- rev_append, <- Hq, rev_involutive. }
  rewrite (trimFront_clean_id strings.space2 strings.space3
             (String.rev (F (String.rev l)))).
  - rewrite rev_involutive. unfold F at 1.
    rewrite trimFront_clean_id by exact Hr. done.
  - apply (frontClean_prefix _ _ _ (String.rev q)). by rewrite <- Hpre.
Qed.

Lemma hasByte_TrimSpace (c : ascii) (s : string) :
  hasByte c s = false → hasByte c (strings.TrimSpace s) = false.
Proof.
  destruct (TrimSpace_inside s) as (p & q & Hs). intros Hc.
  rewrite Hs, !hasByte_app in Hc.
  apply orb_false_iff in Hc as [_ [Hc _]%orb_false_iff]. done.
Qed.

(** A string is its own [TrimSpace] iff it is clean at both ends. *)
Lemma TrimSpace_fixed (s : string) :
  strings.TrimSpace s = s
  ↔ frontClean strings.space2 strings.space3 s = true
    ∧ frontClean (λ d c, strings.space2 c d) (λ e d c, strings.space3 c d e)
        (String.rev s) = true.
Proof.
  split.
  - intros Hs. 
    destruct (trimFront_suffix_clean strings.space2 strings.space3 _ s (le_n _))
      as [_ Hl].
    destruct (trimFront_suffix_clean (λ d c, strings.space2 c d)
                (λ e d c, strings.space3 c d e) _
                (String.rev (strings.TrimLeftSpace s)) (le_n _)) as [[q Hq] Hr].
    unfold strings.TrimSpace, strings.TrimRightSpace in Hs.
    assert (Hpre : strings.TrimLeftSpace s = s +:+ String.rev q).
    { rewrite <- (rev_involutive (strings.TrimLeftSpace s)), Hq, rev_append.
      by rewrite Hs. }
    rewrite <- Hs at 2. rewrite rev_involutive. split; [|exact Hr].
    apply (frontClean_prefix _ _ _ (String.rev q)). rewrite <- Hpre. exact Hl.
  - intros [Hl Hr]. unfold strings.TrimSpace, strings.TrimRightSpace,
      strings.TrimLeftSpace.
    rewrite (trimFront_clean_id _ _ s Hl), (trimFront_clean_id _ _ _ Hr).
    apply rev_involutive.
Qed.

Lemma frontClean_snoc_dash (t : string) :
  frontClean (λ d c, strings.space2 c d) (λ e d c, strings.space3 c d e) t = true →
  frontClean (λ d c, strings.space2 c d) (λ e d c, strings.space3 c d e)
    (t +:+ "-") = true.
Proof. destruct t as [|x [|y [|z t]]]; cbn; try done; by rewrite ?andb_true_r. Qed.

Lemma TrimSpace_dash (k : string) :
  strings.TrimSpace k = k → strings.TrimSpace ("-" +:+ k) = "-" +:+ k.
Proof.
  rewrite !TrimSpace_fixed. intros [_ Hr]. split.
  - by destruct k as [|d [|e k]].
  - rewrite rev_append. by apply frontClean_snoc_dash.
Qed.

Lemma argsFilter_closed (args : list string) :
  argsFilter args = map strings.TrimSpace (filter (λ a, a ≠ "") args).
Proof. apply (argsFilter_loop args []). Qed.

Lemma argsFilter_elem (args : list string) (a : string) :
  a ∈ argsFilter args →
  strings.TrimSpace a = a
  ∧ ∃ b, b ∈ args ∧ b ≠ "" ∧ a = strings.TrimSpace b.
Proof.
  rewrite argsFilter_closed.
  intros (b & -> & [Hb Hin]%list_elem_of_filter)%list_elem_of_fmap.
  split; [apply TrimSpace_idempotent|by exists b].
Qed.

Lemma argsFilter_append (args args' : list string) :
  argsFilter (args ++ args') = argsFilter args ++ argsFilter args'.
Proof. rewrite !argsFilter_closed. by rewrite filter_app, map_app. Qed.

(** X1. Every argument that leaves the sanitizer is free of leading and
    trailing white space, and is the trimmed form of a non-empty element of
    the input. *)
Theorem argsFilter_arguments_trimmed (args : list string) (a : string) :
  a ∈ argsFilter args →
  strings.TrimSpace a = a
  ∧ ∃ b, b ∈ args ∧ b ≠ "" ∧ a = strings.TrimSpace b.
Proof. apply argsFilter_elem. Qed.

Lemma argsFilter_arguments_trimmed_witness :
  " -l " ∈ [""; " -l "]
  ∧ "-l" ∈ argsFilter [""; " -l "]
  ∧ strings.TrimSpace "-l" = "-l".
Proof.
  assert (Hin : "-l" ∈ argsFilter [""; " -l "]) by (vm_compute; left).
  split; [right; left|]. split; [exact Hin|].
  exact (proj1 (argsFilter_arguments_trimmed [""; " -l "] "-l" Hin)).
Defined.

(** X2. The sanitizer works element by element: it distributes over
    concatenation, never returns more elements than it was given, and
    returns nothing exactly when every element given is the empty string. *)
Theorem argsFilter_app (args args' : list string) :
  argsFilter (args ++ args') = argsFilter args ++ argsFilter args'
  ∧ (length (argsFilter args) ≤ length args)%nat
  ∧ (argsFilter args = [] ↔ ∀ a, a ∈ args → a = "").
Proof.
  split; [apply argsFilter_append|]. rewrite !argsFilter_closed. split.
  - rewrite length_map. apply length_filter.
  - split.
    + intros Hnil%fmap_nil_inv a Hin. destruct (decide (a = "")) as [|Hne]; [done|].
      assert (a ∈ filter (λ a, a ≠ "") args) as Ha by by apply list_elem_of_filter.
      rewrite Hnil in Ha. by apply elem_of_nil in Ha.
    + intros Hall. induction args as [|a args IH]; [done|].
      rewrite filter_cons_False; [|intros Hne; apply Hne, Hall; by left].
      apply IH. intros b Hb. apply Hall. by right.
Qed.

(** ** Flag tokens and the sanitizer *)

Lemma dashed_trimmed (b : bool) (k : string) :
  strings.TrimSpace k = k → strings.TrimSpace (dashed b k) = dashed b k.
Proof.
  intros Hk. unfold dashed.
  destruct (b && negb (strings.HasPrefix k "-")); [|done].
  destruct (String.length k =? 1)%nat.
  - by apply TrimSpace_dash.
  - change ("--" +:+ k) with ("-" +:+ ("-" +:+ k)). by do 2 apply TrimSpace_dash.
Qed.

Lemma dashed_has_dash (k : string) : strings.HasPrefix (dashed true k) "-" = true.
Proof.
  unfold dashed. rewrite andb_true_l.
  destruct (strings.HasPrefix k "-") eqn:Hk; [exact Hk|].
  cbn [negb]. destruct (String.length k =? 1)%nat; by destruct k.
Qed.

Lemma elem_of_concat_map {A B : Type} (f : A → list B) (l : list A) (t : B) :
  t ∈ concat (map f l) ↔ ∃ x, x ∈ l ∧ t ∈ f x.
Proof.
  induction l as [|x l IH]; simpl.
  - split; [by intros ?%elem_of_nil|by intros (? & ?%elem_of_nil & _)].
  - rewrite elem_of_app, IH. split.
    + intros [Ht|(y & Hy & Ht)]; [exists x|exists y]; split; try done;
        [by left|by right].
    + intros (y & [->|Hy]%elem_of_cons & Ht); [by left|right; by exists y].
Qed.

Lemma flagStrings_tokens_trimmed (cfg : config) (ord : list (string * string))
    (t : string) :
  t ∈ flagStrings cfg ord → strings.TrimSpace t = t.
Proof.
  rewrite flagStrings_tokens.
  intros (kv & _ & Ht)%elem_of_concat_map.
  unfold flagTokens_spec in Ht. apply elem_of_cons in Ht as [->|Ht].
  - apply dashed_trimmed, TrimSpace_idempotent.
  - case_decide; [by apply elem_of_nil in Ht|].
    apply list_elem_of_singleton in Ht as ->. apply TrimSpace_idempotent.
Qed.

Lemma argsFilter_trimmed_list (l : list string) :
  (∀ t, t ∈ l → strings.TrimSpace t = t) →
  argsFilter l = filter (λ a, a ≠ "") l.
Proof.
  intros Hall. rewrite argsFilter_closed.
  rewrite <- (list_fmap_id (filter (λ a, a ≠ "") l)) at 2.
  apply list_fmap_ext. intros i t [_ Ht]%list_elem_of_lookup_2%list_elem_of_filter.
  by apply Hall.
Qed.

Lemma filter_all_nonempty (l : list string) :
  (∀ t, t ∈ l → t ≠ "") → filter (λ t, t ≠ "") l = l.
Proof.
  induction l as [|a l IH]; intros Hall; [done|].
  rewrite filter_cons_True by (apply Hall; by left).
  f_equal. apply IH. intros t Ht. apply Hall. by right.
Qed.

Lemma argsFilter_flagStrings (cfg : config) (ord : list (string * string)) :
  argsFilter (flagStrings cfg ord) = filter (λ t, t ≠ "") (flagStrings cfg ord).
Proof.
  apply argsFilter_trimmed_list. intros t. apply flagStrings_tokens_trimmed.
Qed.

(** X3. What the sanitizer does to the tokens of [flagStrings]: they are
    already trimmed, so it only drops the empty ones. With add-dashes there
    is none and the tokens pass unchanged; without it a key that is blank is
    dropped, which leaves its value behind as a lone argument. *)
Theorem sanitizer_keeps_flag_tokens (cfg : config)
    (ord : list (string * string)) :
  argsFilter (flagStrings cfg ord) = filter (λ t, t ≠ "") (flagStrings cfg ord)
  ∧ (addDashes cfg = true → argsFilter (flagStrings cfg ord) = flagStrings cfg ord)
  ∧ (addDashes cfg = false →
     ∀ k v, strings.TrimSpace k = "" → strings.TrimSpace v ≠ "" →
            argsFilter (flagStrings cfg [(k, v)]) = [strings.TrimSpace v]).
Proof.
  split; [apply argsFilter_flagStrings|]. split.
  - intros Hd. rewrite argsFilter_flagStrings. apply filter_all_nonempty.
    intros t. rewrite flagStrings_tokens, Hd.
    intros (kv & _ & Ht)%elem_of_concat_map He. subst t.
    unfold flagTokens_spec in Ht. apply elem_of_cons in Ht as [Ht|Ht].
    + pose proof (dashed_has_dash (strings.TrimSpace kv.1)) as Hp.
      by rewrite <- Ht in Hp.
    + case_decide; [by apply elem_of_nil in Ht|].
      by apply list_elem_of_singleton in Ht.
  - intros Hd k v Hk Hv. rewrite argsFilter_flagStrings, flagStrings_tokens, Hd.
    simpl. unfold flagTokens_spec, dashed. simpl. rewrite Hk.
    case_decide; [done|].
    rewrite filter_cons_False by naive_solver. simpl.
    by rewrite filter_cons_True.
Qed.

(** ** The runners *)

(** X4. When the process fails, both runners log the failure and answer
    the same JSON object, status 500 and "failed to run cmd: " followed by
    the error text, also in text mode and whatever -verbose is; nothing the
    process printed is part of what they do. *)
Theorem failed_run_answers_error (cfg : config) (exec exec' : Cmd → procResult)
    (cmd : Cmd) (msg : string) :
  err (exec cmd) = Some msg →
  err (exec' cmd) = Some msg →
  runText cfg exec cmd
  = [CmdCombinedOutput cmd; Printf (LogFailed cmd msg);
     JSON StatusInternalServerError [("error", "failed to run cmd: " +:+ msg)]]
  ∧ runJson cfg exec cmd
    = [CmdRun cmd; Printf (LogFailed cmd msg);
       JSON StatusInternalServerError [("error", "failed to run cmd: " +:+ msg)]]
  ∧ runText cfg exec' cmd = runText cfg exec cmd
  ∧ runJson cfg exec' cmd = runJson cfg exec cmd.
Proof.
  intros He He'. unfold runText, runJson, runFailed, respError.
  by rewrite He, He'.
Qed.

Lemma failed_run_answers_error_witness :
  err (exec_fail rm_rf) = Some "exit status 1"
  ∧ err (exec_fail rm_rf) = Some "exit status 1"
  ∧ runText (defaults ["rm"]) exec_fail rm_rf
    = [CmdCombinedOutput rm_rf; Printf (LogFailed rm_rf "exit status 1");
       JSON StatusInternalServerError
         [("error", "failed to run cmd: exit status 1")]].
Proof.
  assert (He : err (exec_fail rm_rf) = Some "exit status 1") by reflexivity.
  refine (conj He (conj He _)).
  exact (proj1 (failed_run_answers_error (defaults ["rm"]) exec_fail exec_fail
                  rm_rf "exit status 1" He He)).
Defined.

(** X5. The statuses [run] answers: 200 is among them iff the process
    ended without error, 500 iff it ended with one, and 403 iff the command
    is not in the whitelist. *)
Theorem status_tells_process_outcome (cfg : config) (exec : Cmd → procResult)
    (command : string) (args : list string) (env : option (list string)) :
  (StatusOK ∈ statuses (run cfg exec command args env)
   ↔ err (exec {| Path := command; Args := command :: argsFilter args;
                  Env := env |}) = None)
  ∧ (StatusInternalServerError ∈ statuses (run cfg exec command args env)
     ↔ err (exec {| Path := command; Args := command :: argsFilter args;
                    Env := env |}) ≠ None)
  ∧ (StatusForbidden ∈ statuses (run cfg exec command args env)
     ↔ command ∉ whitelist cfg).
Proof.
  rewrite statuses_run. unfold runnerStatus.
  rewrite <- (inWhitelist_loop_elem command (whitelist cfg)).
  fold (inWhitelist cfg command).
  destruct (inWhitelist cfg command), (err (exec _)); simpl;
    rewrite ?elem_of_cons, ?elem_of_nil; unfold StatusOK, StatusForbidden,
      StatusInternalServerError; intuition (congruence || lia).
Qed.

(** ** Verbose logging *)

Lemma unlogged_app (tr tr' : list event) :
  unlogged (tr ++ tr') = unlogged tr ++ unlogged tr'.
Proof. apply filter_app. Qed.

Lemma unlogged_run (cfg : config) (exec : Cmd → procResult) (command : string)
    (args : list string) (env : option (list string)) (b : bool) :
  unlogged (run (with_verbose b cfg) exec command args env)
  = unlogged (run cfg exec command args env).
Proof.
  unfold run. rewrite !unlogged_app. f_equal; [|f_equal].
  - unfold checkCommand, inWhitelist. simpl.
    destruct (inWhitelist_loop command (whitelist cfg)); [done|]. simpl.
    by destruct b, (verboseRun cfg).
  - unfold callRunner, runText, runJson. simpl.
    destruct (myRunner cfg), (err (exec _)); try done;
      by destruct b, (verboseRun cfg).
Qed.

(** X6. The -verbose flag changes nothing but the log: with the log lines
    left out, [run] and both handlers do the same whatever the flag is. *)
Theorem verbose_only_adds_log_lines (cfg : config) (exec : Cmd → procResult)
    (b : bool) :
  (∀ command args env,
     unlogged (run (with_verbose b cfg) exec command args env)
     = unlogged (run cfg exec command args env))
  ∧ (∀ pCommand pArgs query ordFlags,
       unlogged (trace (getHandler (with_verbose b cfg) exec pCommand pArgs
                          query ordFlags))
       = unlogged (trace (getHandler cfg exec pCommand pArgs query ordFlags)))
  ∧ (∀ bindErr req ordFlags ordEnvs,
       unlogged (trace (postHandler (with_verbose b cfg) exec bindErr req
                          ordFlags ordEnvs))
       = unlogged (trace (postHandler cfg exec bindErr req ordFlags ordEnvs))).
Proof.
  split; [|split].
  - intros. apply unlogged_run.
  - intros. rewrite !getHandler_cases.
    destruct (existsb usable query); [done|]. simpl. apply unlogged_run.
  - intros [msg|] req ordFlags ordEnvs; [done|].
    rewrite !postHandler_bound. simpl. apply unlogged_run.
Qed.

(** ** An allowed command *)

(** X7. For a command of the whitelist, [run] first logs the command with
    its sanitized arguments, then starts it once, with the environment it
    was handed, and answers once, after the start, with the status of the
    runner. *)
Theorem allowed_command_runs_once (cfg : config) (exec : Cmd → procResult)
    (command : string) (args : list string) (env : option (list string)) :
  command ∈ whitelist cfg →
  ∃ (start : event) (rest : list event),
    run cfg exec command args env
    = Printf (LogRunning command (argsFilter args)) :: start :: rest
    ∧ spawned start
      = Some {| Path := command; Args := command :: argsFilter args; Env := env |}
    ∧ spawns rest = []
    ∧ statuses (start :: rest)
      = [runnerStatus (exec {| Path := command; Args := command :: argsFilter args;
                               Env := env |})].
Proof.
  intros Hin%inWhitelist_loop_elem. unfold run, checkCommand, inWhitelist.
  rewrite Hin. simpl. unfold callRunner, runText, runJson, runnerStatus.
  destruct (myRunner cfg), (err (exec _)), (verboseRun cfg);
    eexists _, _; (split; [reflexivity|]); by repeat split.
Qed.

Lemma allowed_command_runs_once_witness :
  "pwd" ∈ whitelist (defaults ["pwd"])
  ∧ ∃ (start : event) (rest : list event),
      run (defaults ["pwd"]) exec_echo "pwd" [""] None
      = Printf (LogRunning "pwd" []) :: start :: rest
      ∧ spawned start = Some {| Path := "pwd"; Args := ["pwd"]; Env := None |}
      ∧ spawns rest = []
      ∧ statuses (start :: rest) = [StatusOK].
Proof.
  assert (Hin : "pwd" ∈ whitelist (defaults ["pwd"])) by (simpl; left).
  split; [exact Hin|].
  exact (allowed_command_runs_once (defaults ["pwd"]) exec_echo "pwd" [""] None Hin).
Defined.

(** ** The arguments of a GET request *)

(** X8. A command started for a GET request has the path parameter as its
    program, a nil environment, and as arguments the trimmed non-empty
    segments of the args parameter, whatever the query is: no argument
    contains a slash and none has white space around it. *)
Theorem get_arguments_are_path_segments (cfg : config) (exec : Cmd → procResult)
    (pCommand pArgs : string) (query : list (string * list string))
    (ordFlags : list (string * string)) (cmd : Cmd) :
  range_order None ordFlags →
  cmd ∈ spawns (trace (getHandler cfg exec pCommand pArgs query ordFlags)) →
  cmd = {| Path := pCommand;
           Args := pCommand :: argsFilter (strings.Split pArgs "/");
           Env := None |}
  ∧ (∀ a, a ∈ tail (Args cmd) →
          hasByte "/" a = false ∧ strings.TrimSpace a = a
          ∧ ∃ piece, piece ∈ strings.Split pArgs "/" ∧ piece ≠ ""
                     ∧ a = strings.TrimSpace piece).
Proof.
  intros ->%range_order_nil. rewrite getHandler_cases.
  destruct (existsb usable query); simpl; [by intros ?%elem_of_nil|].
  rewrite spawns_run. intros ->%list_elem_of_singleton. split; [done|].
  simpl. intros a Ha.
  destruct (argsFilter_elem _ _ Ha) as (Ht & piece & Hp & Hne & ->).
  split; [|split; [done|by exists piece]].
  apply hasByte_TrimSpace. by apply Split_no_sep in Hp.
Qed.

Lemma get_arguments_are_path_segments_witness :
  range_order (None : option (gmap string string)) []
  ∧ {| Path := "ls"; Args := ["ls"; "-l"; "tmp"]; Env := None |}
    ∈ spawns (trace (getHandler (defaults ["ls"]) exec_echo "ls" "/-l//tmp/" [] []))
  ∧ ∀ a, a ∈ ["-l"; "tmp"] → hasByte "/" a = false ∧ strings.TrimSpace a = a
      ∧ ∃ piece, piece ∈ strings.Split "/-l//tmp/" "/" ∧ piece ≠ ""
                 ∧ a = strings.TrimSpace piece.
Proof.
  assert (Hr : range_order (None : option (gmap string string)) [])
    by (unfold range_order; simpl; reflexivity).
  assert (Hin : {| Path := "ls"; Args := ["ls"; "-l"; "tmp"]; Env := None |}
                ∈ spawns (trace (getHandler (defaults ["ls"]) exec_echo "ls"
                                   "/-l//tmp/" [] [])))
    by (vm_compute; left).
  refine (conj Hr (conj Hin _)).
  exact (proj2 (get_arguments_are_path_segments (defaults ["ls"]) exec_echo
                  "ls" "/-l//tmp/" [] [] _ Hr Hin)).
Defined.

(** ** The answers of a POST request *)

(** X10. [postHandler] answers 400 iff [c.Bind] returned an error, and then
    this answer, which carries the error of [c.Bind], is all it does: the
    runner is not called. So a body that does not decode gets this answer,
    and a body that decodes is never answered 400. *)
Theorem bind_error_answers_400 (cfg : config) (exec : Cmd → procResult)
    (bindErr : option string) (req : request)
    (ordFlags ordEnvs : list (string * string)) :
  (StatusBadRequest
   ∈ statuses (trace (postHandler cfg exec bindErr req ordFlags ordEnvs))
   ↔ bindErr ≠ None)
  ∧ (∀ msg, bindErr = Some msg →
            postHandler cfg exec bindErr req ordFlags ordEnvs
            = Done [JSON StatusBadRequest [("error", msg)]])
  ∧ (∀ msg, postHandler_body cfg exec (Malformed msg) ordFlags ordEnvs
            = Done [JSON StatusBadRequest [("error", msg)]])
  ∧ (∀ sent, StatusBadRequest
             ∉ statuses (trace (postHandler_body cfg exec (Decoded sent)
                                  ordFlags ordEnvs))).
Proof.
  split; [|split; [|split]].
  - destruct bindErr as [msg|].
    + split; [done|]. intros _. simpl. left.
    + split; [|done]. rewrite postHandler_bound. simpl.
      by intros ?%statuses_run_not_400.
  - by intros msg ->.
  - done.
  - intros sent.
    change (postHandler_body cfg exec (Decoded sent) ordFlags ordEnvs)
      with (postHandler cfg exec None zero_request ordFlags ordEnvs).
    rewrite postHandler_bound. apply statuses_run_not_400.
Qed.

(** ** The environment vector *)

Lemma hasByte_envEntry (cfg : config) (kv : string * string) :
  hasByte "=" (envEntry cfg kv) = true.
Proof.
  unfold envEntry. rewrite !hasByte_app. simpl. by rewrite orb_true_r.
Qed.

(** X11. [envStrings] is nil exactly when the envs map has no entry.
    Otherwise it has one string per entry, in the order [range] visits
    them, so as many as the map has entries and the same up to order
    whatever that order is; each contains the byte "=". *)
Theorem envStrings_entries (cfg : config) (envs : option (gmap string string))
    (ord : list (string * string)) :
  range_order envs ord →
  (envStrings cfg ord = None ↔ from_option size 0%nat envs = 0%nat)
  ∧ (∀ env, envStrings cfg ord = Some env →
       env = map (envEntry cfg) ord
       ∧ length env = from_option size 0%nat envs
       ∧ env ≡ₚ map (envEntry cfg) (from_option map_to_list [] envs)
       ∧ ∀ e, e ∈ env → hasByte "=" e = true).
Proof.
  intros Hr. unfold range_order in Hr.
  assert (Hlen : length ord = from_option size 0%nat envs).
  { rewrite Hr. destruct envs as [m|]; simpl; [apply length_map_to_list|done]. }
  split.
  - rewrite <- Hlen. destruct ord as [|kv ord].
    + by rewrite envStrings_nil.
    + by rewrite envStrings_cons.
  - intros env He.
    assert (env = map (envEntry cfg) ord) as ->.
    { destruct ord as [|kv ord]; [by rewrite envStrings_nil in He|].
      rewrite envStrings_cons in He. by injection He as <-. }
    split; [done|]. split; [by rewrite length_map|]. split; [by rewrite Hr|].
    intros e (kv & -> & _)%list_elem_of_fmap. apply hasByte_envEntry.
Qed.

Lemma envStrings_entries_witness :
  range_order (Some envs_k) [("k", "v")]
  ∧ envStrings (with_upper ["env"]) [("k", "v")] = Some ["K=v"]
  ∧ length ["K=v"] = size envs_k.
Proof.
  assert (Hr : range_order (Some envs_k) [("k", "v")])
    by (unfold range_order; vm_compute; reflexivity).
  assert (He : envStrings (with_upper ["env"]) [("k", "v")] = Some ["K=v"])
    by reflexivity.
  refine (conj Hr (conj He _)).
  destruct (envStrings_entries (with_upper ["env"]) (Some envs_k) [("k", "v")] Hr)
    as [_ Hall].
  exact (proj1 (proj2 (Hall ["K=v"] He))).
Defined.

(** ** Startup *)


(** ** Flags to strings, continued *)

Lemma length_flagTokens_spec (b : bool) (kv : string * string) :
  (1 ≤ length (flagTokens_spec b kv) ≤ 2)%nat.
Proof. unfold flagTokens_spec. case_decide; cbn [length]; lia. Qed.

Lemma length_concat_tokens (b : bool) (ord : list (string * string)) :
  (length ord ≤ length (concat (map (flagTokens_spec b) ord)) ≤ 2 * length ord)%nat.
Proof.
  induction ord as [|kv ord IH]; [simpl; lia|].
  cbn [map concat]. rewrite length_app. cbn [length].
  pose proof (length_flagTokens_spec b kv). lia.
Qed.

(** X13. [flagStrings] emits one or two tokens per entry of the flags map,
    pair after pair. With add-dashes the first token of a pair always
    starts with a dash, and a key that already starts with one is emitted
    as it is, trimmed. *)
Theorem flagStrings_token_count (cfg : config)
    (flags : option (gmap string string)) (ord ord' : list (string * string)) :
  range_order flags ord →
  (from_option size 0%nat flags ≤ length (flagStrings cfg ord)
   ≤ 2 * from_option size 0%nat flags)%nat
  ∧ flagStrings cfg (ord ++ ord') = flagStrings cfg ord ++ flagStrings cfg ord'
  ∧ (addDashes cfg = true →
     ∀ k v, ∃ key, hd_error (flagStrings cfg [(k, v)]) = Some key
                   ∧ strings.HasPrefix key "-" = true
                   ∧ (strings.HasPrefix (strings.TrimSpace k) "-" = true →
                      key = strings.TrimSpace k)).
Proof.
  intros Hr. unfold range_order in Hr.
  assert (Hlen : length ord = from_option size 0%nat flags).
  { rewrite Hr. destruct flags as [m|]; simpl; [apply length_map_to_list|done]. }
  rewrite !flagStrings_tokens, <- Hlen. split; [apply length_concat_tokens|].
  split; [by rewrite map_app, concat_app|].
  intros Hd k v. rewrite flagStrings_tokens, Hd.
  exists (dashed true (strings.TrimSpace k)). simpl. split; [done|].
  split; [apply dashed_has_dash|].
  intros Hp. unfold dashed. by rewrite Hp.
Qed.

Lemma flagStrings_token_count_witness :
  range_order (Some flags_a_bee) [("bee", "1"); ("a", "")]
  ∧ (2 ≤ length (flagStrings (with_dashes ["pwd"]) [("bee", "1"); ("a", "")]) ≤ 4)%nat.
Proof.
  assert (Hr : range_order (Some flags_a_bee) [("bee", "1"); ("a", "")])
    by (unfold range_order; vm_compute; apply perm_swap).
  split; [exact Hr|].
  exact (proj1 (flagStrings_token_count (with_dashes ["pwd"]) (Some flags_a_bee)
                  [("bee", "1"); ("a", "")] [] Hr)).
Defined.

Lemma well_formed_run (cfg : config) (exec : Cmd → procResult) (command : string)
    (args : list string) (env : option (list string)) :
  forallb well_formed_answer (run cfg exec command args env) = true.
Proof.
  unfold run, checkCommand, callRunner, runText, runJson, runFailed, respError.
  destruct (inWhitelist cfg command), (myRunner cfg), (err (exec _)),
    (verboseRun cfg); reflexivity.
Qed.

(** X14. Every answer of a handler is of one of these shapes: a JSON
    object with status 400, 403 or 500 and the single field "error"; a JSON
    object with status 200 and the fields "stdout" and "stderr"; or a plain
    text with status 200. *)
Theorem answers_well_formed (cfg : config) (exec : Cmd → procResult) :
  (∀ pCommand pArgs query ordFlags,
     forallb well_formed_answer
       (trace (getHandler cfg exec pCommand pArgs query ordFlags)) = true)
  ∧ (∀ bindErr req ordFlags ordEnvs,
       forallb well_formed_answer
         (trace (postHandler cfg exec bindErr req ordFlags ordEnvs)) = true).
Proof.
  split.
  - intros. rewrite getHandler_cases.
    destruct (existsb usable query); [done|]. apply well_formed_run.
  - intros [msg|] req ordFlags ordEnvs; [done|].
    rewrite postHandler_bound. apply well_formed_run.
Qed.
